(** * mrpt::containers::vector_with_small_size_optimization

    A shallow embedding of
    [libs/containers/include/mrpt/containers/vector_with_small_size_optimization.h]
    and the properties of its [resize], [swap], [operator[]], [begin]/[end]
    and iterator operators.

    The container owns a [std::vector] ([m_v]), a [std::array] of
    [small_size] slots ([m_a]), the flag [m_is_small] and the count
    [m_size].  Member functions are state transformers on that record. *)

From stdpp Require Import base numbers option list.

Set Default Proof Using "Type".

(** ** Control flow of a member function

    A member function runs on the object and either returns or lets a
    [std::bad_alloc] of the heap storage escape; in both cases the object
    is left with the fields as they were written so far. *)

Inductive outcome (S : Type) : Type :=
  | Returned (s : S)
  | Thrown (s : S).
Arguments Returned {S} s.
Arguments Thrown {S} s.

Definition final {S : Type} (o : outcome S) : S :=
  match o with Returned s => s | Thrown s => s end.

Definition stmt (S : Type) : Type := S -> outcome S.

Definition skip {S : Type} : stmt S := Returned.

Definition seq {S : Type} (s1 s2 : stmt S) : stmt S :=
  fun c => match s1 c with
           | Returned c1 => s2 c1
           | Thrown c1 => Thrown c1
           end.

Definition ite {S : Type} (b : S -> bool) (s1 s2 : stmt S) : stmt S :=
  fun c => if b c then s1 c else s2 c.

Declare Scope stmt_scope.
Delimit Scope stmt_scope with stmt.
Notation "s1 ;; s2" := (seq s1 s2)
  (at level 100, s2 at level 200, right associativity) : stmt_scope.
Notation "'If' b 'Then' s1 'Else' s2" := (ite b s1 s2)
  (at level 10, b at level 200, s1 at level 200, s2 at level 200) : stmt_scope.

(** ** Statements with a precondition

    An iterator range that leaves its container, and a [std::copy] that
    writes past the end of its destination, have no defined behaviour.  A
    checked statement says so: [None] when a precondition fails, and else
    what the statement does. *)

Definition checked (S : Type) : Type := S -> option (outcome S).

Definition defined {S : Type} (s : stmt S) : checked S :=
  fun c => Some (s c).

Definition require {S : Type} (b : S -> bool) (s : stmt S) : checked S :=
  fun c => if b c then Some (s c) else None.

Definition checked_seq {S : Type} (s1 s2 : checked S) : checked S :=
  fun c => match s1 c with
           | Some (Returned c1) => s2 c1
           | Some (Thrown c1) => Some (Thrown c1)
           | None => None
           end.

Definition checked_ite {S : Type} (b : S -> bool) (s1 s2 : checked S)
  : checked S :=
  fun c => if b c then s1 c else s2 c.

Declare Scope checked_scope.
Delimit Scope checked_scope with checked.
Notation "s1 ;; s2" := (checked_seq s1 s2)
  (at level 100, s2 at level 200, right associativity) : checked_scope.
Notation "'If' b 'Then' s1 'Else' s2" := (checked_ite b s1 s2)
  (at level 10, b at level 200, s1 at level 200, s2 at level 200)
  : checked_scope.

(** An allocator is asked for a number of elements and grants it or not. *)
Definition allocator : Type := nat -> bool.

(** The allocator that never runs out of memory. *)
Definition unlimited : allocator := fun _ => true.

(** ** std::vector<T, ALLOC>

    The elements and the capacity of the block that holds them. *)

Record large_vec (T : Type) : Type := LargeVec {
  elems : list T;
  capacity : nat
}.
Arguments LargeVec {T} elems capacity.
Arguments elems {T} l.
Arguments capacity {T} l.

Definition vec_empty {T : Type} : large_vec T := LargeVec [] 0.

(** A vector holds no more elements than its block has room for. *)
Definition vec_ok {T : Type} (v : large_vec T) : Prop :=
  length (elems v) ≤ capacity v.

(** [std::copy(first, last, d_first)] into an array given as the list
    [dst], the source range given as the list [src]: the first
    [length src] slots of [dst] are overwritten.  (Writing past the end of
    [dst] is undefined in C++; the states of interest never do.) *)
Definition copy_into {T : Type} (src dst : list T) : list T :=
  src ++ drop (length src) dst.

(** ** The container

    [m_v] is the [std::vector], [m_a] the [std::array] of [small_size]
    slots. *)

Record container (T : Type) : Type := Container {
  m_v : large_vec T;
  m_a : list T;
  m_is_small : bool;
  m_size : nat
}.
Arguments Container {T} m_v m_a m_is_small m_size.
Arguments m_v {T} c.
Arguments m_a {T} c.
Arguments m_is_small {T} c.
Arguments m_size {T} c.

Definition set_m_v {T : Type} (v : large_vec T) (c : container T) : container T :=
  Container v (m_a c) (m_is_small c) (m_size c).
Definition set_m_a {T : Type} (a : list T) (c : container T) : container T :=
  Container (m_v c) a (m_is_small c) (m_size c).
Definition set_m_is_small {T : Type} (b : bool) (c : container T) : container T :=
  Container (m_v c) (m_a c) b (m_size c).
Definition set_m_size {T : Type} (n : nat) (c : container T) : container T :=
  Container (m_v c) (m_a c) (m_is_small c) n.

(** A freshly constructed container: [m_is_small = true], [m_size = 0], an
    empty vector, and the array default-initialised, which for scalar [T]
    leaves it with indeterminate contents [junk]. *)
Definition new_container {T : Type} (junk : list T) : container T :=
  Container vec_empty junk true 0.

(** ** Iterators

    An iterator holds a raw pointer [m_ptr] into one of the two buffers of
    a container: an address is a buffer and a signed offset from its
    [data()]. *)

Inductive buffer : Type := SmallBuf | LargeBuf.

Global Instance buffer_eq_dec : EqDecision buffer.
Proof. solve_decision. Defined.

Record pointer : Type := Ptr { buf : buffer; off : Z }.

Global Instance pointer_eq_dec : EqDecision pointer.
Proof. solve_decision. Defined.

Definition ptr_add (p : pointer) (n : Z) : pointer := Ptr (buf p) (off p + n).

Record iteratorImpl : Type := Iter { m_ptr : pointer }.

(** An operator that changes its iterator gives back the value it returns
    and the iterator as it leaves it. *)
Definition returning : Type := iteratorImpl * iteratorImpl.
Definition returned (r : returning) : iteratorImpl := fst r.
Definition left_at (r : returning) : iteratorImpl := snd r.

(** [self operator++() { self i = *this; m_ptr++; return i; }] *)
Definition operator_pre_incr (this : iteratorImpl) : returning :=
  let i := this in
  let this := Iter (ptr_add (m_ptr this) 1) in
  (i, this).

(** [self operator--() { self i = *this; m_ptr--; return i; }] *)
Definition operator_pre_decr (this : iteratorImpl) : returning :=
  let i := this in
  let this := Iter (ptr_add (m_ptr this) (-1)) in
  (i, this).

(** [self operator++(int) { m_ptr++; return *this; }] *)
Definition operator_post_incr (this : iteratorImpl) : returning :=
  let this := Iter (ptr_add (m_ptr this) 1) in
  (this, this).

(** [self operator--(int) { m_ptr--; return *this; }] *)
Definition operator_post_decr (this : iteratorImpl) : returning :=
  let this := Iter (ptr_add (m_ptr this) (-1)) in
  (this, this).

(** [self operator+(difference_type n)] *)
Definition operator_plus (this : iteratorImpl) (n : Z) : iteratorImpl :=
  Iter (ptr_add (m_ptr this) n).

(** [self operator-(difference_type n)] *)
Definition operator_minus (this : iteratorImpl) (n : Z) : iteratorImpl :=
  Iter (ptr_add (m_ptr this) (- n)).

(** [self operator+=(difference_type n) { m_ptr += n; return *this; }] *)
Definition operator_plus_assign (this : iteratorImpl) (n : Z) : returning :=
  let this := Iter (ptr_add (m_ptr this) n) in
  (this, this).

(** [self operator-=(difference_type n) { m_ptr -= n; return *this; }] *)
Definition operator_minus_assign (this : iteratorImpl) (n : Z) : returning :=
  let this := Iter (ptr_add (m_ptr this) (- n)) in
  (this, this).

(** [difference_type operator-(const self& o) { return m_ptr - o.m_ptr; }]
    The difference of two pointers is defined when both are into the
    same buffer; [None] otherwise. *)
Definition operator_diff (this o : iteratorImpl) : option Z :=
  if decide (buf (m_ptr this) = buf (m_ptr o))
  then Some (off (m_ptr this) - off (m_ptr o))%Z
  else None.

(** [bool operator==(const self& o)], [bool operator!=(const self& o)] *)
Definition operator_eq (this o : iteratorImpl) : bool :=
  bool_decide (m_ptr this = m_ptr o).
Definition operator_ne (this o : iteratorImpl) : bool :=
  negb (bool_decide (m_ptr this = m_ptr o)).

(** [m_a.data()] and [m_v.data()] *)
Definition m_a_data : pointer := Ptr SmallBuf 0.
Definition m_v_data : pointer := Ptr LargeBuf 0.

(** The conventional contract of the operators (what the standard asks of
    an iterator): [++r] moves and returns [r] as moved, [r++] moves and
    returns a copy of [r] as it was. *)
Definition conventional_prefix (d : Z) (this : iteratorImpl) : returning :=
  let this := Iter (ptr_add (m_ptr this) d) in (this, this).
Definition conventional_postfix (d : Z) (this : iteratorImpl) : returning :=
  let old := this in (old, Iter (ptr_add (m_ptr this) d)).

(** ** Concrete containers: [nat] elements, default 0, [small_size = 4] *)

(** A vector that doubles its capacity, and a heap that grants nothing. *)
Definition doubling : nat → nat → nat := fun cap _ => 2 * cap.
Definition no_memory : allocator := fun _ => false.

Definition fresh4 : container nat := new_container [0; 0; 0; 0].

(** Small, size 2, elements 1, 2. *)
Definition small_pq : container nat := Container vec_empty [1; 2; 0; 0] true 2.

(** Large, size 10, elements 10 .. 19. *)
Definition large_v : container nat :=
  Container (LargeVec [10; 11; 12; 13; 14; 15; 16; 17; 18; 19] 12)
            [0; 0; 0; 0] false 10.

(** Small and empty again after a Large episode of size 6 in which
    element 0 was set to 7: [resize(6)], [c[0] = 7], [resize(0)]. *)
Definition after_large_episode : container nat :=
  Container (LargeVec [7; 0; 0; 0; 0; 0] 6) [0; 0; 0; 0] true 0.

(** What a failed [resize(6)] leaves of a fresh container. *)
Definition half_resized : container nat :=
  Container vec_empty [0; 0; 0; 0] false 6.

Section Container.

(** [T] is the element type ([VAL], or [UnspecializedBool] for [bool]),
    [dflt] its value-initialised element, [small_size] the template
    parameter of that name. *)
Context {T : Type}.
Variable dflt : T.
Variable small_size : nat.

(** The growth policy of [std::vector] is left to the implementation: from
    the current capacity and the length asked for it proposes a capacity,
    and the vector reserves at least the length asked for. *)
Variable growth : nat -> nat -> nat.

(** ** Operations of the vector *)

Definition new_capacity (v : large_vec T) (n : nat) : nat :=
  n `max` growth (capacity v) n.

(** [reserve_for a n v]: the storage [v] must hold [n] elements; a larger
    block is requested from [a] when the capacity does not suffice.
    [None] is [std::bad_alloc]. *)
Definition reserve_for (a : allocator) (n : nat) (v : large_vec T) : option nat :=
  if n <=? capacity v then Some (capacity v)
  else if a (new_capacity v n) then Some (new_capacity v n)
  else None.

(** [m_v.assign(first, last)] with the range given as the list [src]. *)
Definition vec_assign (a : allocator) (src : list T) (v : large_vec T)
  : option (large_vec T) :=
  cap ← reserve_for a (length src) v;
  Some (LargeVec src cap).

(** [m_v.resize(n)]: truncates, or appends value-initialised elements. *)
Definition vec_resize (a : allocator) (n : nat) (v : large_vec T)
  : option (large_vec T) :=
  cap ← reserve_for a n v;
  Some (LargeVec (take n (elems v) ++ replicate (n - length (elems v)) dflt) cap).

(** *** Statements of [resize] *)

(** [m_v.assign(m_a.begin(), m_a.begin() + m_size);] *)
Definition assign_m_v_from_m_a (a : allocator) : stmt (container T) :=
  fun c => match vec_assign a (take (m_size c) (m_a c)) (m_v c) with
           | Some v => Returned (set_m_v v c)
           | None => Thrown c
           end.

(** [std::copy(m_v.begin(), m_v.begin() + n, m_a.begin());] *)
Definition copy_m_v_to_m_a (n : nat) : stmt (container T) :=
  fun c => Returned (set_m_a (copy_into (take n (elems (m_v c))) (m_a c)) c).

(** [m_v.resize(m_size);] *)
Definition resize_m_v (a : allocator) : stmt (container T) :=
  fun c => match vec_resize a (m_size c) (m_v c) with
           | Some v => Returned (set_m_v v c)
           | None => Thrown c
           end.

Definition assign_m_size (n : nat) : stmt (container T) :=
  fun c => Returned (set_m_size n c).
Definition assign_m_is_small (b : bool) : stmt (container T) :=
  fun c => Returned (set_m_is_small b c).

Open Scope stmt_scope.

(** [void resize(size_type n)], run against the allocator [a]. *)
Definition resize_stmt (a : allocator) (n : nat) : stmt (container T) :=
  (If (fun c => negb (m_size c =? 0)) Then
     (If (fun c => m_is_small c && (small_size <? n)) Then
        assign_m_v_from_m_a a
      Else If (fun c => negb (m_is_small c) && (n <=? small_size)) Then
        copy_m_v_to_m_a n
      Else skip)
   Else skip) ;;
  assign_m_size n ;;
  assign_m_is_small (n <=? small_size) ;;
  (If (fun c => negb (m_is_small c)) Then resize_m_v a Else skip).

(** [resize] when memory does not run out. *)
Definition resize (n : nat) (c : container T) : container T :=
  final (resize_stmt unlimited n c).

(** *** size, operator[] *)

Definition size (c : container T) : nat := m_size c.

(** [bool empty() const { return m_size == 0; }] *)
Definition empty (c : container T) : bool := m_size c =? 0.

(** The storage that [m_is_small] designates. *)
Definition active (c : container T) : list T :=
  if m_is_small c then m_a c else elems (m_v c).

(** [operator[](n)] read: [m_is_small ? m_a[n] : m_v[n]].  [None] when [n]
    is outside the storage, where the C++ access is undefined. *)
Definition index (c : container T) (n : nat) : option T :=
  if m_is_small c then m_a c !! n else elems (m_v c) !! n.

(** An assignment through the reference that [operator[](n)] returns. *)
Definition store (n : nat) (x : T) (c : container T) : option (container T) :=
  if m_is_small c then
    if decide (n < length (m_a c)) then Some (set_m_a (<[n:=x]> (m_a c)) c)
    else None
  else
    if decide (n < length (elems (m_v c))) then
      Some (set_m_v (LargeVec (<[n:=x]> (elems (m_v c))) (capacity (m_v c))) c)
    else None.

(** [back()]: [m_is_small ? m_a[m_size - 1] : m_v.back()].  With
    [m_size = 0] the unsigned [m_size - 1] is the largest [size_t], outside
    any array; [m_v.back()] needs a vector that is not empty. *)
Definition back (c : container T) : option T :=
  if m_is_small c then
    match m_size c with
    | O => None
    | S k => m_a c !! k
    end
  else last (elems (m_v c)).

(** [front()]: [m_is_small ? m_a.front() : m_v.front()]. *)
Definition front (c : container T) : option T :=
  if m_is_small c then head (m_a c) else head (elems (m_v c)).

(** What a caller can see of a container: its size, its mode and the
    elements below its size. *)
Definition contents (c : container T) : list T := take (m_size c) (active c).

Definition observable (c : container T) : nat * bool * list T :=
  (m_size c, m_is_small c, contents c).

(** *** swap

    The state is the pair of [*this] and [x], two distinct objects. *)

Definition both : Type := container T * container T.

(** [m_a.swap(x.m_a);] *)
Definition swap_m_a : stmt both :=
  fun '(this, x) => Returned (set_m_a (m_a x) this, set_m_a (m_a this) x).

(** [m_v.swap(x.m_v);] and [x.m_v.swap(m_v);] *)
Definition swap_m_v : stmt both :=
  fun '(this, x) => Returned (set_m_v (m_v x) this, set_m_v (m_v this) x).

(** [std::copy(x.m_a.begin(), x.m_a.begin() + x.m_size, m_a.begin());] *)
Definition copy_x_m_a_to_m_a : stmt both :=
  fun '(this, x) =>
    Returned (set_m_a (copy_into (take (m_size x) (m_a x)) (m_a this)) this, x).

(** [std::copy(m_a.begin(), m_a.begin() + m_size, x.m_a.begin());] *)
Definition copy_m_a_to_x_m_a : stmt both :=
  fun '(this, x) =>
    Returned (this, set_m_a (copy_into (take (m_size this) (m_a this)) (m_a x)) x).

(** [std::swap(m_size, x.m_size);] *)
Definition swap_m_size : stmt both :=
  fun '(this, x) =>
    Returned (set_m_size (m_size x) this, set_m_size (m_size this) x).

(** [std::swap(m_is_small, x.m_is_small);] *)
Definition swap_m_is_small : stmt both :=
  fun '(this, x) =>
    Returned (set_m_is_small (m_is_small x) this,
              set_m_is_small (m_is_small this) x).

(** [void swap(vector& x)] *)
Definition swap_stmt : stmt both :=
  (If (fun '(this, x) => m_is_small this && m_is_small x) Then
     swap_m_a
   Else If (fun '(this, x) => negb (m_is_small this) && negb (m_is_small x)) Then
     swap_m_v
   Else If (fun '(this, x) => negb (m_is_small this) && m_is_small x) Then
     (copy_x_m_a_to_m_a ;; swap_m_v)
   Else
     (swap_m_v ;; copy_m_a_to_x_m_a)) ;;
  swap_m_size ;;
  swap_m_is_small.

Definition swap (this x : container T) : both := final (swap_stmt (this, x)).

Close Scope stmt_scope.

(** The element at an address of a container's buffers, if there is one. *)
Definition load (c : container T) (p : pointer) : option T :=
  if decide (0 ≤ off p)%Z then
    match buf p with
    | SmallBuf => m_a c !! Z.to_nat (off p)
    | LargeBuf => elems (m_v c) !! Z.to_nat (off p)
    end
  else None.

(** [REFERENCE operator*() { return *m_ptr; }] *)
Definition operator_deref (c : container T) (this : iteratorImpl) : option T :=
  load c (m_ptr this).

(** [begin()]: [m_is_small ? m_a.data() : m_v.data()] *)
Definition begin (c : container T) : iteratorImpl :=
  Iter (if m_is_small c then m_a_data else m_v_data).

(** [end()]: [m_is_small ? m_a.data() + m_size : m_v.data() + m_size] *)
Definition end_ (c : container T) : iteratorImpl :=
  Iter (if m_is_small c then ptr_add m_a_data (Z.of_nat (m_size c))
        else ptr_add m_v_data (Z.of_nat (m_size c))).

(** The loop [for (it = first; it != last; step(it)) out.push_back( *it );]
    where [step] is one of the increment operators, its result dropped.
    [None]: the loop read outside the buffers or did not end within
    [fuel] rounds. *)
Fixpoint traverse (step : iteratorImpl -> returning) (fuel : nat)
    (c : container T) (it last : iteratorImpl) : option (list T) :=
  if operator_ne it last then
    match fuel with
    | O => None
    | S fuel' =>
        x ← operator_deref c it;
        rest ← traverse step fuel' c (left_at (step it)) last;
        Some (x :: rest)
    end
  else Some [].

(** ** Well-formed containers

    The array has [small_size] slots, the mode follows the size, and in
    large mode the vector has [m_size] elements. *)
Definition wf (c : container T) : Prop :=
  length (m_a c) = small_size ∧
  (m_is_small c = true ↔ m_size c ≤ small_size) ∧
  (m_is_small c = false → length (elems (m_v c)) = m_size c).

(** The invariant relating mode and size alone. *)
Definition mode_inv (c : container T) : Prop :=
  m_is_small c = true ↔ m_size c ≤ small_size.

(** The elements that the migration step of [resize n] leaves in the two
    storages. *)
Definition migrated_v (n : nat) (c : container T) : list T :=
  if negb (m_size c =? 0) && m_is_small c && (small_size <? n)
  then take (m_size c) (m_a c) else elems (m_v c).

Definition migrated_a (n : nat) (c : container T) : list T :=
  if negb (m_size c =? 0) && negb (m_is_small c) && (n <=? small_size)
  then copy_into (take n (elems (m_v c))) (m_a c) else m_a c.

(** Both increment operators leave the iterator one slot further. *)
Definition advances (step : iteratorImpl → returning) : Prop :=
  ∀ it, left_at (step it) = Iter (ptr_add (m_ptr it) 1).

(** *** resize and swap with their preconditions

    The same statements, each copy behind the precondition of its
    ranges: [m_a.begin() + m_size] must not pass the end of the array;
    [m_v.begin() + n] must not pass the end of the vector, and the [n]
    slots written from [m_a.begin()] must be slots of the array. *)

Open Scope checked_scope.

Definition resize_checked (a : allocator) (n : nat) : checked (container T) :=
  (If (fun c => negb (m_size c =? 0)) Then
     (If (fun c => m_is_small c && (small_size <? n)) Then
        require (fun c => m_size c <=? length (m_a c))
                (assign_m_v_from_m_a a)
      Else If (fun c => negb (m_is_small c) && (n <=? small_size)) Then
        require (fun c => (n <=? length (elems (m_v c)))
                          && (n <=? length (m_a c)))
                (copy_m_v_to_m_a n)
      Else defined skip)
   Else defined skip) ;;
  defined (assign_m_size n) ;;
  defined (assign_m_is_small (n <=? small_size)) ;;
  (If (fun c => negb (m_is_small c)) Then defined (resize_m_v a)
   Else defined skip).

Definition swap_checked : checked both :=
  (If (fun '(this, x) => m_is_small this && m_is_small x) Then
     defined swap_m_a
   Else If (fun '(this, x) => negb (m_is_small this) && negb (m_is_small x)) Then
     defined swap_m_v
   Else If (fun '(this, x) => negb (m_is_small this) && m_is_small x) Then
     (require (fun '(this, x) => (m_size x <=? length (m_a x))
                                 && (m_size x <=? length (m_a this)))
              copy_x_m_a_to_m_a ;;
      defined swap_m_v)
   Else
     (defined swap_m_v ;;
      require (fun '(this, x) => (m_size this <=? length (m_a this))
                                 && (m_size this <=? length (m_a x)))
              copy_m_a_to_x_m_a)) ;;
  defined swap_m_size ;;
  defined swap_m_is_small.

Close Scope checked_scope.

(** The containers that a program holds as long as every call has
    returned: built by the constructor and changed by calls of [resize]
    that return, under whatever allocator, by assignments through
    [operator[]] and by [swap].  A [resize] that throws leaves a container
    that need not be among them. *)
Inductive reached_returning : container T → Prop :=
  | rr_new junk :
      length junk = small_size → reached_returning (new_container junk)
  | rr_resize a n c c' :
      reached_returning c → resize_stmt a n c = Returned c' →
      reached_returning c'
  | rr_store n x c c' :
      reached_returning c → store n x c = Some c' → reached_returning c'
  | rr_swap_this this x :
      reached_returning this → reached_returning x →
      reached_returning (swap this x).1
  | rr_swap_x this x :
      reached_returning this → reached_returning x →
      reached_returning (swap this x).2.

(** ** Facts about the vector and the array copy *)

Lemma reserve_for_unlimited n v : is_Some (reserve_for unlimited n v).
Proof. unfold reserve_for, unlimited. case_match; eauto. Qed.

Lemma reserve_for_ge a n v cap : reserve_for a n v = Some cap → n ≤ cap.
Proof.
  unfold reserve_for, new_capacity. intros H.
  destruct (n <=? capacity v) eqn:E.
  - apply Nat.leb_le in E. injection H as <-. exact E.
  - destruct (a _); [injection H as <-; lia | discriminate].
Qed.

Lemma reserve_for_fits a n v : n ≤ capacity v → reserve_for a n v = Some (capacity v).
Proof. intros H. unfold reserve_for. apply Nat.leb_le in H. by rewrite H. Qed.

Lemma length_resized (n : nat) (l : list T) :
  length (take n l ++ replicate (n - length l) dflt) = n.
Proof. rewrite length_app, length_take, length_replicate. lia. Qed.

Lemma resized_same (n : nat) (l : list T) :
  length l = n → take n l ++ replicate (n - length l) dflt = l.
Proof.
  intros H. rewrite take_ge by lia.
  replace (n - length l) with 0 by lia. apply app_nil_r.
Qed.

Lemma lookup_resized_new (n i : nat) (l : list T) :
  length l ≤ i → i < n →
  (take n l ++ replicate (n - length l) dflt) !! i = Some dflt.
Proof.
  intros Hl Hn. rewrite take_ge by lia.
  rewrite lookup_app_r by lia. apply lookup_replicate_2. lia.
Qed.

Lemma length_copy_into (src dst : list T) :
  length src ≤ length dst → length (copy_into src dst) = length dst.
Proof. intros H. unfold copy_into. rewrite length_app, length_drop. lia. Qed.

Lemma take_copy_into (src dst : list T) :
  take (length src) (copy_into src dst) = src.
Proof. unfold copy_into. by rewrite take_app_length. Qed.

Lemma vec_resize_fixed a n v :
  length (elems v) = n → n ≤ capacity v → vec_resize a n v = Some v.
Proof.
  intros Hl Hc. unfold vec_resize. rewrite reserve_for_fits by done. simpl.
  rewrite resized_same by done. by destruct v.
Qed.

(** ** Facts about resize *)

Ltac unfold_resize :=
  unfold resize, resize_stmt, seq, ite, skip, assign_m_v_from_m_a,
    copy_m_v_to_m_a, resize_m_v, assign_m_size, assign_m_is_small,
    vec_assign, vec_resize, migrated_v, migrated_a; simpl.

Ltac run_unlimited :=
  repeat (match goal with
          | |- context [reserve_for unlimited ?n ?v] =>
              destruct (reserve_for_unlimited n v) as [? ->]
          | |- context [if ?b then _ else _] => destruct b
          end; simpl).

Lemma resize_returns n c : resize_stmt unlimited n c = Returned (resize n c).
Proof. destruct c as [v a s k]. unfold_resize. run_unlimited; reflexivity. Qed.

(** The fields after [resize n], one by one. *)
Lemma m_size_resize n c : m_size (resize n c) = n.
Proof. destruct c as [v a s k]. unfold_resize. run_unlimited; reflexivity. Qed.

Lemma m_is_small_resize n c : m_is_small (resize n c) = (n <=? small_size).
Proof.
  destruct c as [v a s k]. unfold_resize.
  destruct (n <=? small_size); run_unlimited; reflexivity.
Qed.

Lemma m_a_resize n c : m_a (resize n c) = migrated_a n c.
Proof.
  destruct c as [v a s k]. unfold_resize.
  destruct (n <=? small_size) eqn:E1, (small_size <? n) eqn:E2, s, (k =? 0);
    simpl; try (apply Nat.leb_le in E1; apply Nat.ltb_lt in E2; lia);
    run_unlimited; reflexivity.
Qed.

Lemma elems_resize n c :
  elems (m_v (resize n c)) =
    if n <=? small_size then elems (m_v c)
    else take n (migrated_v n c)
           ++ replicate (n - length (migrated_v n c)) dflt.
Proof.
  destruct c as [v a s k]. unfold_resize.
  destruct (n <=? small_size) eqn:E1, (small_size <? n) eqn:E2, s, (k =? 0);
    simpl; try (apply Nat.leb_le in E1; apply Nat.ltb_lt in E2; lia);
    try (apply Nat.leb_gt in E1; apply Nat.ltb_ge in E2; lia);
    run_unlimited; reflexivity.
Qed.

Lemma capacity_resize n c :
  m_is_small (resize n c) = false → n ≤ capacity (m_v (resize n c)).
Proof.
  rewrite m_is_small_resize. intros E1.
  destruct c as [v a s k]. unfold_resize. rewrite E1.
  destruct (small_size <? n) eqn:E2, s, (k =? 0); simpl;
    repeat (match goal with
            | |- context [reserve_for ?al ?n ?v] =>
                let E := fresh "E" in
                destruct (reserve_for al n v) eqn:E;
                [apply reserve_for_ge in E
                |destruct (reserve_for_unlimited n v) as [? ?]; congruence]
            end; simpl); try reflexivity; lia.
Qed.

Lemma length_migrated_a n c : wf c → length (migrated_a n c) = small_size.
Proof.
  intros (Ha & Hm & Hv). unfold migrated_a.
  destruct (negb (m_size c =? 0) && negb (m_is_small c) && (n <=? small_size)) eqn:E;
    [|done].
  apply andb_prop in E as [_ E%Nat.leb_le].
  rewrite length_copy_into; [done|]. rewrite length_take. lia.
Qed.

Lemma wf_resize n c : wf c → wf (resize n c).
Proof.
  intros Hwf. unfold wf.
  rewrite m_size_resize, m_is_small_resize, m_a_resize, elems_resize.
  split; [by apply length_migrated_a|]. split.
  - apply Nat.leb_le.
  - intros ->. apply length_resized.
Qed.

Lemma wf_new_container junk : length junk = small_size → wf (new_container junk).
Proof. intros H. unfold wf. simpl. split; [done|]. split; [|done]. split; [lia|done]. Qed.

(** A container that already has the size, the mode and the vector length
    of [resize n] goes through it unchanged, whatever the allocator. *)
Lemma resize_fixed a n c :
  m_size c = n → m_is_small c = (n <=? small_size) →
  (m_is_small c = false → length (elems (m_v c)) = n ∧ n ≤ capacity (m_v c)) →
  resize_stmt a n c = Returned c.
Proof.
  destruct c as [v ar s k]. simpl. intros -> -> Hv.
  unfold resize_stmt, seq, ite, skip, assign_m_v_from_m_a, copy_m_v_to_m_a,
    resize_m_v, assign_m_size, assign_m_is_small. simpl.
  destruct (n <=? small_size) eqn:E1; simpl.
  - assert ((small_size <? n) = false) as ->
      by (apply Nat.ltb_ge; by apply Nat.leb_le).
    simpl. by destruct (n =? 0).
  - destruct (Hv eq_refl) as [Hl Hc].
    destruct (negb (n =? 0)); simpl; by rewrite vec_resize_fixed.
Qed.

Lemma resize_again a n c : resize_stmt a n (resize n c) = Returned (resize n c).
Proof.
  apply resize_fixed.
  - apply m_size_resize.
  - apply m_is_small_resize.
  - intros H. split; [|by apply capacity_resize].
    rewrite m_is_small_resize in H. rewrite elems_resize, H. apply length_resized.
Qed.

Lemma resize_resize n c : resize n (resize n c) = resize n c.
Proof. unfold resize at 1. by rewrite resize_again. Qed.

Lemma container_eta (c : container T) :
  c = Container (LargeVec (elems (m_v c)) (capacity (m_v c)))
                (m_a c) (m_is_small c) (m_size c).
Proof. by destruct c as [[l cap] ar s k]. Qed.

(** ** Facts about operator[] *)

Lemma index_active c n : index c n = active c !! n.
Proof. unfold index, active. by destruct (m_is_small c). Qed.

Lemma lookup_contents c i : i < m_size c → contents c !! i = index c i.
Proof. intros H. unfold contents. rewrite index_active. by apply lookup_take_lt. Qed.

Lemma length_active c : wf c → m_size c ≤ length (active c).
Proof.
  intros (Ha & Hm & Hv). unfold active. destruct (m_is_small c).
  - rewrite Ha. by apply Hm.
  - by rewrite Hv.
Qed.

Lemma length_contents c : wf c → length (contents c) = m_size c.
Proof.
  intros H%length_active. unfold contents. rewrite length_take. lia.
Qed.

Lemma store_fields n x c c' :
  store n x c = Some c' →
  m_size c' = m_size c ∧ m_is_small c' = m_is_small c ∧
  length (m_a c') = length (m_a c) ∧
  length (elems (m_v c')) = length (elems (m_v c)).
Proof.
  unfold store. destruct c as [v a s k]. simpl.
  destruct s; case_decide; intros [= <-]; simpl;
    rewrite ?length_insert; done.
Qed.

Lemma wf_store n x c c' : wf c → store n x c = Some c' → wf c'.
Proof.
  intros (Ha & Hm & Hv) (Hs & Hb & Hla & Hlv)%store_fields. unfold wf.
  rewrite Hs, Hb, Hla, Hlv. done.
Qed.

(** ** Facts about swap *)

Lemma swap_eq this x :
  swap this x =
    if m_is_small this && m_is_small x then
      (Container (m_v this) (m_a x) (m_is_small x) (m_size x),
       Container (m_v x) (m_a this) (m_is_small this) (m_size this))
    else if negb (m_is_small this) && negb (m_is_small x) then
      (Container (m_v x) (m_a this) (m_is_small x) (m_size x),
       Container (m_v this) (m_a x) (m_is_small this) (m_size this))
    else if negb (m_is_small this) && m_is_small x then
      (Container (m_v x) (copy_into (take (m_size x) (m_a x)) (m_a this))
                 (m_is_small x) (m_size x),
       Container (m_v this) (m_a x) (m_is_small this) (m_size this))
    else
      (Container (m_v x) (m_a this) (m_is_small x) (m_size x),
       Container (m_v this) (copy_into (take (m_size this) (m_a this)) (m_a x))
                 (m_is_small this) (m_size this)).
Proof.
  destruct this as [v1 a1 [] k1], x as [v2 a2 [] k2]; reflexivity.
Qed.

Lemma swap_m_size_m_is_small this x :
  m_size (swap this x).1 = m_size x ∧ m_is_small (swap this x).1 = m_is_small x ∧
  m_size (swap this x).2 = m_size this ∧ m_is_small (swap this x).2 = m_is_small this.
Proof.
  rewrite swap_eq. destruct (m_is_small this), (m_is_small x); done.
Qed.

Lemma swap_observable this x :
  wf this → wf x →
  observable (swap this x).1 = observable x ∧
  observable (swap this x).2 = observable this.
Proof.
  intros (Ha1 & Hm1 & Hv1) (Ha2 & Hm2 & Hv2). rewrite swap_eq.
  unfold observable, contents, active.
  destruct (m_is_small this) eqn:E1, (m_is_small x) eqn:E2; simpl;
    rewrite ?E1, ?E2; try done.
  - (* this small, x large: the live elements of this were copied to x.m_a *)
    split; [done|]. f_equal.
    assert (m_size this ≤ small_size) as Hle by by apply Hm1.
    assert (length (take (m_size this) (m_a this)) = m_size this) as Hl
      by (rewrite length_take; lia).
    rewrite <- Hl at 1. apply take_copy_into.
  - (* this large, x small: the live elements of x were copied to m_a *)
    split; [|done]. f_equal.
    assert (m_size x ≤ small_size) as Hle by by apply Hm2.
    assert (length (take (m_size x) (m_a x)) = m_size x) as Hl
      by (rewrite length_take; lia).
    rewrite <- Hl at 1. apply take_copy_into.
Qed.

Lemma wf_swap this x :
  wf this → wf x → wf (swap this x).1 ∧ wf (swap this x).2.
Proof.
  clear growth.
  intros (Ha1 & Hm1 & Hv1) (Ha2 & Hm2 & Hv2). rewrite swap_eq. unfold wf.
  destruct (m_is_small this) eqn:E1, (m_is_small x) eqn:E2; simpl;
    rewrite ?E1, ?E2; rewrite ?length_copy_into;
    rewrite ?length_take; intuition (done || lia).
Qed.

(** A run of [resize] that returns gives what [resize] gives, whatever
    the allocator. *)
Lemma reserve_for_granted a n v cap :
  reserve_for a n v = Some cap → reserve_for unlimited n v = Some cap.
Proof.
  unfold reserve_for, unlimited. destruct (n <=? capacity v); [done|].
  by destruct (a _).
Qed.

Lemma resize_stmt_returned a n c c' :
  resize_stmt a n c = Returned c' → c' = resize n c.
Proof.
  destruct c as [v ar s k]. unfold_resize.
  destruct (n <=? small_size), (small_size <? n), s, (k =? 0); simpl;
    repeat (match goal with
            | |- context [reserve_for a ?m ?w] =>
                let E := fresh "E" in
                destruct (reserve_for a m w) eqn:E;
                [rewrite (reserve_for_granted _ _ _ _ E)|]
            end; simpl);
    intros [= <-]; reflexivity.
Qed.

(** As long as every call has returned the container is well-formed and
    its vector fits its block. *)
Lemma reached_returning_wf c : reached_returning c → wf c.
Proof.
  induction 1 as [junk Hj|a n c c' _ IH Hr|n x c c' _ IH Hst
                  |this x _ IH1 _ IH2|this x _ IH1 _ IH2].
  - by apply wf_new_container.
  - apply resize_stmt_returned in Hr as ->. by apply wf_resize.
  - by eapply wf_store.
  - by apply wf_swap.
  - by apply wf_swap.
Qed.

Lemma vec_ok_resize n c : vec_ok (m_v c) → vec_ok (m_v (resize n c)).
Proof.
  intros Hok. unfold vec_ok.
  destruct (n <=? small_size) eqn:E.
  - destruct c as [v ar s k]. unfold_resize. rewrite E.
    assert ((small_size <? n) = false) as ->
      by (apply Nat.ltb_ge; by apply Nat.leb_le).
    by destruct (k =? 0), s.
  - rewrite elems_resize, E, length_resized. apply capacity_resize.
    by rewrite m_is_small_resize.
Qed.

Lemma reached_returning_vec_ok c : reached_returning c → vec_ok (m_v c).
Proof.
  induction 1 as [junk Hj|a n c c' _ IH Hr|n x c c' _ IH Hst
                  |this x _ IH1 _ IH2|this x _ IH1 _ IH2].
  - unfold vec_ok. simpl. lia.
  - apply resize_stmt_returned in Hr as ->. by apply vec_ok_resize.
  - unfold store in Hst. unfold vec_ok in *.
    destruct (m_is_small c); case_decide; simplify_eq; simpl;
      rewrite ?length_insert; done.
  - rewrite swap_eq. destruct (m_is_small this), (m_is_small x); done.
  - rewrite swap_eq. destruct (m_is_small this), (m_is_small x); done.
Qed.

(** Where a run of [resize] that throws leaves the container: as it was
    to its callers, or with size [n], mode Large and a vector without
    room for [n]. *)
Lemma resize_stmt_thrown a n c c' :
  vec_ok (m_v c) → resize_stmt a n c = Thrown c' →
  observable c' = observable c ∨
  (m_size c' = n ∧ m_is_small c' = false ∧
   vec_ok (m_v c') ∧ capacity (m_v c') < n).
Proof.
  intros Hok. destruct c as [v ar s k]. simpl in Hok.
  unfold resize_stmt, seq, ite, skip, assign_m_v_from_m_a, copy_m_v_to_m_a,
    resize_m_v, assign_m_size, assign_m_is_small. simpl.
  assert (∀ w, vec_resize a n w = None → capacity w < n) as Hcap.
  { intros w. unfold vec_resize, reserve_for.
    destruct (n <=? capacity w) eqn:E; [done|]. apply Nat.leb_gt in E. done. }
  assert (∀ l w, vec_assign a l v = Some w → vec_ok w) as Hassign.
  { intros l w. unfold vec_assign.
    destruct (reserve_for a (length l) v) as [cap|] eqn:E; [|done].
    simpl. intros [= <-]. unfold vec_ok. simpl. by eapply reserve_for_ge. }
  destruct (n <=? small_size) eqn:E1; simpl.
  - assert ((small_size <? n) = false) as ->
      by (apply Nat.ltb_ge; by apply Nat.leb_le).
    rewrite andb_false_r. by destruct (negb (k =? 0)), s.
  - destruct (negb (k =? 0)), s, (small_size <? n); simpl;
      repeat (match goal with
              | |- context [vec_assign a ?l ?w] =>
                  let E := fresh "E" in
                  destruct (vec_assign a l w) eqn:E; simpl
              | |- context [vec_resize a ?m ?w] =>
                  let E := fresh "E" in
                  destruct (vec_resize a m w) eqn:E; simpl
              end);
      intros [= <-]; simpl; eauto 10.
Qed.

(** ** Facts about iterators *)

Lemma load_small c j : load c (Ptr SmallBuf (Z.of_nat j)) = m_a c !! j.
Proof. unfold load. simpl. rewrite decide_True by lia. by rewrite Nat2Z.id. Qed.

Lemma load_large c j : load c (Ptr LargeBuf (Z.of_nat j)) = elems (m_v c) !! j.
Proof. unfold load. simpl. rewrite decide_True by lia. by rewrite Nat2Z.id. Qed.

Lemma load_active c j :
  load c (Ptr (if m_is_small c then SmallBuf else LargeBuf) (Z.of_nat j))
  = active c !! j.
Proof. unfold active. destruct (m_is_small c); [apply load_small|apply load_large]. Qed.

Lemma begin_eq c :
  begin c = Iter (Ptr (if m_is_small c then SmallBuf else LargeBuf) (Z.of_nat 0)).
Proof. unfold begin. by destruct (m_is_small c). Qed.

Lemma end_eq c :
  end_ c = Iter (Ptr (if m_is_small c then SmallBuf else LargeBuf)
                     (Z.of_nat (m_size c))).
Proof. unfold end_. by destruct (m_is_small c). Qed.

Lemma operator_pre_incr_advances : advances operator_pre_incr.
Proof. by intros [p]. Qed.

Lemma operator_post_incr_advances : advances operator_post_incr.
Proof. by intros [p]. Qed.

(** The loop over the slots [i .. n-1] of a buffer that holds [l]. *)
Lemma traverse_range step c b l fuel : ∀ i n,
  advances step →
  (∀ j, load c (Ptr b (Z.of_nat j)) = l !! j) →
  i ≤ n → n ≤ length l → n - i ≤ fuel →
  traverse step fuel c (Iter (Ptr b (Z.of_nat i))) (Iter (Ptr b (Z.of_nat n)))
  = Some (drop i (take n l)).
Proof.
  induction fuel as [|fuel IH]; intros i n Hstep Hload Hin Hn Hfuel.
  - assert (i = n) as -> by lia. simpl. unfold operator_ne.
    rewrite bool_decide_true by done. simpl.
    by rewrite drop_ge by (rewrite length_take; lia).
  - simpl. unfold operator_ne. simpl. case_bool_decide as Heq; simpl.
    + injection Heq as Heq. apply Nat2Z.inj in Heq as ->.
      by rewrite drop_ge by (rewrite length_take; lia).
    + assert (i < n) as Hlt.
      { destruct (decide (i = n)) as [->|]; [done|lia]. }
      destruct (lookup_lt_is_Some_2 l i) as [x Hx]; [lia|].
      unfold operator_deref. simpl. rewrite Hload, Hx. simpl.
      rewrite Hstep. simpl. unfold ptr_add. simpl.
      replace (Z.of_nat i + 1)%Z with (Z.of_nat (S i)) by lia.
      rewrite IH by (done || lia). simpl.
      f_equal. symmetry. apply drop_S. by rewrite lookup_take_lt.
Qed.

Lemma traverse_contents step c fuel :
  advances step → wf c → m_size c ≤ fuel →
  traverse step fuel c (begin c) (end_ c) = Some (contents c).
Proof.
  intros Hstep Hwf Hfuel. rewrite begin_eq, end_eq.
  rewrite (traverse_range step c _ (active c)).
  - by rewrite drop_0.
  - done.
  - apply load_active.
  - lia.
  - by apply length_active.
  - lia.
Qed.

(** ** Properties of resize *)

(** C6: for every container and every [n], right after [resize(n)] the
    size is [n] and the mode is Small exactly when [n <= small_size]. *)
Theorem resize_size_and_mode n c :
  size (resize n c) = n ∧
  (m_is_small (resize n c) = true ↔ n ≤ small_size).
Proof.
  unfold size. rewrite m_size_resize, m_is_small_resize.
  split; [done|apply Nat.leb_le].
Qed.

(** C8: [resize(n)] is idempotent.  Calling it once more, or any number
    of times more, on the container that the first [resize(n)] left gives
    that container back: same size, same mode, same element at every index
    below [n]; indeed the same fields throughout, and no allocation is
    asked for, so the call returns whatever the allocator. *)
Theorem resize_idempotent n c k :
  let first := resize n c in
  let again := Nat.iter (S k) (resize n) first in
  size again = size first ∧
  m_is_small again = m_is_small first ∧
  (∀ i, i < n → index again i = index first i) ∧
  again = first ∧
  (∀ a, resize_stmt a n first = Returned first).
Proof.
  simpl.
  assert (Nat.iter k (resize n) (resize n c) = resize n c) as Hk.
  { induction k as [|k IH]; simpl; [done|]. by rewrite IH, resize_resize. }
  rewrite Hk, resize_resize. repeat split.
  intros a. apply resize_again.
Qed.

(** C2, amended: when [resize(n)] takes a Small container to Large, the
    slots of the Large storage from its own length before the final
    [m_v.resize] up to [n-1] hold the default value.  That length is the
    old size when the old size is not 0 (the migration copy assigned
    exactly the old elements), and the length the vector was left with
    when the old size is 0 (no copy is made).  So the slots from the old
    size on are default whenever the old size is not 0 or the vector is
    empty. *)
Theorem resize_to_large_defaults n c :
  wf c → m_is_small c = true → small_size < n →
  let r := resize n c in
  let from := if m_size c =? 0 then length (elems (m_v c)) else m_size c in
  m_is_small r = false ∧ length (elems (m_v r)) = n ∧
  (∀ i, from ≤ i → i < n → index r i = Some dflt) ∧
  (m_size c ≠ 0 ∨ elems (m_v c) = [] →
   ∀ i, m_size c ≤ i → i < n → index r i = Some dflt).
Proof.
  intros (Ha & Hm & Hv) Hs Hn. simpl.
  assert ((n <=? small_size) = false) as E1 by (apply Nat.leb_gt; lia).
  assert ((small_size <? n) = true) as E2 by (apply Nat.ltb_lt; lia).
  assert (m_size c ≤ small_size) as Hle by by apply Hm.
  assert (length (migrated_v n c)
          = if m_size c =? 0 then length (elems (m_v c)) else m_size c) as Hl.
  { unfold migrated_v. rewrite Hs, E2.
    destruct (m_size c =? 0); simpl; [done|]. rewrite length_take. lia. }
  assert (∀ i, (if m_size c =? 0 then length (elems (m_v c)) else m_size c) ≤ i →
               i < n → index (resize n c) i = Some dflt) as Hdflt.
  { intros i Hi Hin. unfold index.
    rewrite m_is_small_resize, E1, elems_resize, E1.
    apply lookup_resized_new; [by rewrite Hl|done]. }
  split; [by rewrite m_is_small_resize|].
  split; [rewrite elems_resize, E1; apply length_resized|].
  split; [done|].
  intros Hcase i Hi Hin. apply Hdflt; [|done].
  destruct (m_size c =? 0) eqn:E0; [|done].
  destruct Hcase as [Hne | ->]; [|simpl; lia].
  apply Nat.eqb_eq in E0. done.
Qed.

(** C3, amended: an allocation failure can leave [resize(n)] at two
    places.  In the migration copy ([m_v.assign], Small to Large with a
    size that is not 0) the container is left with the size, the mode and
    the live elements it had.  In the final [m_v.resize], which runs after
    [m_size] and [m_is_small] were assigned, the container is left with
    size [n] and mode Large, the array untouched, and a vector that holds
    the migrated elements and has no room for [n]. *)
Theorem resize_bad_alloc a n c c' :
  resize_stmt a n c = Thrown c' →
  (observable c' = observable c ∧
   m_size c ≠ 0 ∧ m_is_small c = true ∧ small_size < n ∧
   vec_assign a (take (m_size c) (m_a c)) (m_v c) = None)
  ∨
  (m_size c' = n ∧ m_is_small c' = false ∧ small_size < n ∧
   m_a c' = m_a c ∧ elems (m_v c') = migrated_v n c ∧
   capacity (m_v c') < n ∧ vec_resize a n (m_v c') = None).
Proof.
  destruct c as [v ar s k].
  unfold resize_stmt, seq, ite, skip, assign_m_v_from_m_a, copy_m_v_to_m_a,
    resize_m_v, assign_m_size, assign_m_is_small, migrated_v. simpl.
  destruct (n <=? small_size) eqn:E1; simpl.
  - (* n <= small_size: the vector is not resized, and no copy allocates *)
    assert ((small_size <? n) = false) as ->
      by (apply Nat.ltb_ge; by apply Nat.leb_le).
    rewrite andb_false_r. by destruct (negb (k =? 0)), s.
  - apply Nat.leb_gt in E1.
    assert ((small_size <? n) = true) as -> by by apply Nat.ltb_lt.
    rewrite andb_true_r.
    assert (∀ w, vec_resize a n w = None → capacity w < n) as Hcap.
    { intros w. unfold vec_resize, reserve_for.
      destruct (n <=? capacity w) eqn:E; [done|]. apply Nat.leb_gt in E. done. }
    destruct (k =? 0) eqn:E0; simpl.
    + destruct (vec_resize a n v) eqn:E; [done|]. intros [= <-]. simpl.
      right. auto 10.
    + apply Nat.eqb_neq in E0. destruct s; simpl.
      * destruct (vec_assign a (take k ar) v) as [w|] eqn:Ea; simpl.
        -- destruct (vec_resize a n w) eqn:E; [done|]. intros [= <-]. simpl.
           right. unfold vec_assign in Ea.
           destruct (reserve_for a (length (take k ar)) v); [|done].
           injection Ea as <-. simpl. pose proof (Hcap _ E). auto 10.
        -- intros [= <-]. left. auto 10.
      * destruct (vec_resize a n v) eqn:E; [done|]. intros [= <-]. simpl.
        right. auto 10.
Qed.

(** ** Properties of swap *)

(** C4: [swap] exchanges the whole observable state of two containers,
    whatever their modes (Small/Small, Large/Large, and the two mixed
    pairings): afterwards [*this] has the size, the mode and the elements
    that [x] had, and [x] those that [*this] had. *)
Theorem swap_exchanges_state this x :
  wf this → wf x →
  let this' := (swap this x).1 in
  let x' := (swap this x).2 in
  (size this' = size x ∧ m_is_small this' = m_is_small x ∧
   ∀ i, i < size x → index this' i = index x i) ∧
  (size x' = size this ∧ m_is_small x' = m_is_small this ∧
   ∀ i, i < size this → index x' i = index this i) ∧
  observable this' = observable x ∧ observable x' = observable this.
Proof.
  intros Hwf1 Hwf2. simpl.
  destruct (swap_observable this x Hwf1 Hwf2) as [H1 H2].
  destruct (swap_m_size_m_is_small this x) as (Hs1 & Hb1 & Hs2 & Hb2).
  unfold size.
  assert (contents (swap this x).1 = contents x) as Hc1
    by (unfold observable in H1; congruence).
  assert (contents (swap this x).2 = contents this) as Hc2
    by (unfold observable in H2; congruence).
  repeat split; try done.
  - intros i Hi. rewrite <- !lookup_contents by (rewrite ?Hs1; done).
    by rewrite Hc1.
  - intros i Hi. rewrite <- !lookup_contents by (rewrite ?Hs2; done).
    by rewrite Hc2.
Qed.

(** C5: the invariant "mode Small iff size <= small_size" holds for a
    fresh container and is kept by every public operation that changes a
    container: [resize] with any argument (from any state), [swap] of two
    containers that satisfy it, and an assignment through [operator[]]. *)
Theorem mode_invariant :
  (∀ junk, mode_inv (new_container junk)) ∧
  (∀ n c, mode_inv (resize n c)) ∧
  (∀ this x, mode_inv this → mode_inv x →
     mode_inv (swap this x).1 ∧ mode_inv (swap this x).2) ∧
  (∀ n v c c', mode_inv c → store n v c = Some c' → mode_inv c').
Proof.
  unfold mode_inv. split; [|split; [|split]].
  - intros junk. simpl. split; [lia|done].
  - intros n c. rewrite m_size_resize, m_is_small_resize. apply Nat.leb_le.
  - intros this x H1 H2.
    destruct (swap_m_size_m_is_small this x) as (-> & -> & -> & ->). done.
  - intros n v c c' H (-> & -> & _)%store_fields. done.
Qed.

(** ** Properties of iteration *)

(** C7: iteration agrees with indexing.  For a well-formed container of
    size [n], in either mode, the loop from [begin()] to [end()] (stepping
    with [++it] or with [it++]) ends and yields exactly [n] elements, the
    one at position [i] being what [operator[](i)] returns. *)
Theorem iteration_agrees_with_indexing c step fuel :
  wf c → size c ≤ fuel →
  step = operator_pre_incr ∨ step = operator_post_incr →
  ∃ l, traverse step fuel c (begin c) (end_ c) = Some l ∧
       length l = size c ∧
       ∀ i, i < size c → l !! i = index c i.
Proof.
  intros Hwf Hfuel Hstep. exists (contents c). split; [|split].
  - apply traverse_contents; [|done..].
    destruct Hstep as [-> | ->];
      [apply operator_pre_incr_advances|apply operator_post_incr_advances].
  - by apply length_contents.
  - apply lookup_contents.
Qed.

(** ** Further properties of resize *)

Lemma lookup_resized_old (n i : nat) (l : list T) :
  i < n → i < length l →
  (take n l ++ replicate (n - length l) dflt) !! i = l !! i.
Proof.
  intros Hn Hl. rewrite lookup_app_l by (rewrite length_take; lia).
  by rewrite lookup_take_lt.
Qed.

(** X1: [resize(n)] keeps every element that stays visible: on a
    well-formed container, an index below both the old size and [n] reads
    the same element after the call, whether or not the mode changes. *)
Theorem resize_preserves_prefix n c i :
  wf c → i < size c → i < n → index (resize n c) i = index c i.
Proof.
  unfold size. intros (Ha & Hm & Hv) Hi Hin. unfold index.
  rewrite m_is_small_resize, m_a_resize, elems_resize.
  unfold migrated_a, migrated_v.
  assert ((m_size c =? 0) = false) as -> by (apply Nat.eqb_neq; lia).
  simpl. destruct (n <=? small_size) eqn:E1, (m_is_small c) eqn:E2; simpl.
  - done.
  - specialize (Hv eq_refl). unfold copy_into.
    rewrite lookup_app_l by (rewrite length_take; lia).
    by rewrite lookup_take_lt.
  - apply Nat.leb_gt in E1.
    assert ((small_size <? n) = true) as -> by by apply Nat.ltb_lt.
    assert (m_size c ≤ small_size) by by apply Hm.
    rewrite lookup_resized_old by (rewrite ?length_take; lia).
    by rewrite lookup_take_lt.
  - specialize (Hv eq_refl). by rewrite lookup_resized_old by lia.
Qed.

(** X2: as long as every call has returned, no index below the size is
    out of range: [operator[](i)] with [i < size()] reads an element of
    the active storage, and an assignment through it goes through.  A
    [resize(n)] that throws ends this unless it leaves the container as
    it was to its callers: it leaves size [n] with index [n-1] outside
    the vector. *)
Theorem index_in_bounds_until_a_throw :
  (∀ c i, reached_returning c → i < size c →
     is_Some (index c i) ∧ ∀ x, is_Some (store i x c)) ∧
  (∀ a n c c', reached_returning c → resize_stmt a n c = Thrown c' →
     observable c' = observable c ∨
     (size c' = n ∧ 0 < n ∧ index c' (n - 1) = None)).
Proof.
  split.
  - unfold size. intros c i Hwf%reached_returning_wf Hi.
    pose proof (length_active c Hwf) as Hlen.
    split.
    + rewrite index_active. apply lookup_lt_is_Some_2. lia.
    + intros x. unfold store. unfold active in Hlen.
      destruct (m_is_small c); rewrite decide_True by lia; eauto.
  - intros a n c c' Hok%reached_returning_vec_ok Ht.
    destruct (resize_stmt_thrown a n c c' Hok Ht)
      as [Hobs|(Hs & Hb & Hok' & Hcap)]; [by left|right].
    unfold size, index, vec_ok in *. rewrite Hb.
    split; [done|]. split; [lia|]. apply lookup_ge_None. lia.
Qed.

(** X3: [resize(n)] with [n <= small_size] never touches the heap: it
    returns whatever the allocator, and leaves the vector as it was (also
    when leaving Large mode: the block is kept, not released). *)
Theorem resize_small_no_heap a n c :
  n ≤ small_size →
  resize_stmt a n c = Returned (resize n c) ∧ m_v (resize n c) = m_v c.
Proof.
  intros Hn%Nat.leb_le.
  assert ((small_size <? n) = false) as Hlt
    by (apply Nat.ltb_ge; by apply Nat.leb_le).
  destruct c as [v ar s k]. unfold_resize. rewrite Hn, Hlt.
  destruct (k =? 0), s; done.
Qed.

(** X4: a block that is large enough is used again.  On a well-formed
    container whose vector has capacity for [n], [resize(n)] asks the
    allocator for nothing: it returns whatever the allocator and keeps the
    capacity.  So a container that was Large once grows back to that size
    without allocating. *)
Theorem resize_reuses_capacity a n c :
  wf c → n ≤ capacity (m_v c) →
  resize_stmt a n c = Returned (resize n c) ∧
  capacity (m_v (resize n c)) = capacity (m_v c).
Proof.
  intros (Ha & Hm & Hv) Hcap. destruct c as [v ar s k]. simpl in *.
  unfold resize, resize_stmt, seq, ite, skip, assign_m_v_from_m_a,
    copy_m_v_to_m_a, resize_m_v, assign_m_size, assign_m_is_small,
    vec_assign, vec_resize. simpl.
  destruct (n <=? small_size) eqn:E1; simpl.
  - assert ((small_size <? n) = false) as ->
      by (apply Nat.ltb_ge; by apply Nat.leb_le).
    by destruct (k =? 0), s.
  - apply Nat.leb_gt in E1.
    assert ((small_size <? n) = true) as -> by by apply Nat.ltb_lt.
    destruct (k =? 0), s; simpl;
      try (assert (k ≤ small_size) by (by apply Hm);
           rewrite !(reserve_for_fits _ (length (take k ar)) v)
             by (rewrite length_take; lia); simpl);
      rewrite !reserve_for_fits by (simpl; lia); done.
Qed.

(** X5: within Small mode [resize] only changes the size.  Shrinking and
    growing again with sizes up to [small_size] leaves every slot of the
    array as it was, so the elements cut off by the first call are visible
    again after the second (they are not value-initialised). *)
Theorem resize_within_small_keeps_slots n m c i :
  m_is_small c = true → n ≤ small_size → m ≤ small_size →
  index (resize m (resize n c)) i = index c i.
Proof.
  intros Hs Hn%Nat.leb_le Hm%Nat.leb_le. unfold index.
  rewrite m_is_small_resize, Hm, Hs, m_a_resize. unfold migrated_a at 1.
  rewrite m_is_small_resize, Hn. simpl. rewrite andb_false_r. simpl.
  rewrite m_a_resize. unfold migrated_a. rewrite Hs. simpl.
  by rewrite andb_false_r.
Qed.

(** X6: growth within Large mode value-initialises the new slots: on a
    well-formed Large container, after [resize(n)] every index from the
    old size up to [n-1] reads the default value. *)
Theorem resize_large_growth_defaults n c i :
  wf c → m_is_small c = false → size c ≤ i → i < n →
  index (resize n c) i = Some dflt.
Proof.
  unfold size. intros (Ha & Hm & Hv) Hs Hi Hin. specialize (Hv Hs).
  assert (¬ m_size c ≤ small_size) as Hgt by (rewrite <- Hm, Hs; done).
  assert ((n <=? small_size) = false) as E1 by (apply Nat.leb_gt; lia).
  unfold index. rewrite m_is_small_resize, elems_resize, E1.
  unfold migrated_v. rewrite Hs, andb_false_r. simpl.
  apply lookup_resized_new; lia.
Qed.

(** X7: on well-formed containers [resize] and [swap] meet the
    preconditions of every range they form: run with the checks, each
    does what it does without them, whatever the allocator.  The checks
    do fail elsewhere: a Large container whose vector is shorter than
    [n] has no defined [resize(n)] to Small. *)
Theorem ranges_stay_in_storage :
  (∀ a n c, wf c → resize_checked a n c = Some (resize_stmt a n c)) ∧
  (∀ this x, wf this → wf x →
     swap_checked (this, x) = Some (swap_stmt (this, x))) ∧
  (∀ a n c, m_size c ≠ 0 → m_is_small c = false → n ≤ small_size →
     length (elems (m_v c)) < n → resize_checked a n c = None).
Proof.
  split; [|split].
  - intros a n [v ar s k] (Ha & Hm & Hv). simpl in *.
    unfold resize_checked, resize_stmt, checked_seq, checked_ite, seq, ite,
      require, defined, skip, assign_m_size, assign_m_is_small,
      copy_m_v_to_m_a. simpl.
    destruct (k =? 0) eqn:E0; simpl.
    + by destruct (n <=? small_size); simpl; [|destruct (resize_m_v _ _)].
    + destruct s; simpl.
      * assert (k ≤ small_size) as Hk by by apply Hm.
        destruct (small_size <? n) eqn:E2; simpl.
        -- assert ((k <=? length ar) = true) as ->
             by (apply Nat.leb_le; lia).
           destruct (assign_m_v_from_m_a a _); simpl; [|done].
           by destruct (n <=? small_size); simpl; [|destruct (resize_m_v _ _)].
        -- by destruct (n <=? small_size); simpl; [|destruct (resize_m_v _ _)].
      * specialize (Hv eq_refl).
        assert (¬ k ≤ small_size) as Hgt by (rewrite <- Hm; done).
        destruct (n <=? small_size) eqn:E1; simpl.
        -- apply Nat.leb_le in E1.
           assert ((n <=? length (elems v)) = true) as ->
             by (apply Nat.leb_le; lia).
           assert ((n <=? length ar) = true) as ->
             by (apply Nat.leb_le; lia).
           done.
        -- by destruct (resize_m_v _ _).
  - intros [v1 a1 s1 k1] [v2 a2 s2 k2] (Ha1 & Hm1 & Hv1) (Ha2 & Hm2 & Hv2).
    simpl in *.
    unfold swap_checked, swap_stmt, checked_seq, checked_ite, seq, ite,
      require, defined. simpl.
    destruct s1, s2; simpl; try done.
    + assert (k1 ≤ small_size) by (by apply Hm1).
      assert ((k1 <=? length a1) = true) as -> by (apply Nat.leb_le; lia).
      assert ((k1 <=? length a2) = true) as -> by (apply Nat.leb_le; lia).
      done.
    + assert (k2 ≤ small_size) by (by apply Hm2).
      assert ((k2 <=? length a2) = true) as -> by (apply Nat.leb_le; lia).
      assert ((k2 <=? length a1) = true) as -> by (apply Nat.leb_le; lia).
      done.
  - intros a n [v ar s k] Hk Hs Hn Hlen. simpl in *. subst s.
    unfold resize_checked, checked_seq, checked_ite, require. simpl.
    assert ((k =? 0) = false) as -> by by apply Nat.eqb_neq.
    assert ((n <=? small_size) = true) as -> by by apply Nat.leb_le.
    assert ((n <=? length (elems v)) = false) as ->
      by (apply Nat.leb_gt; lia).
    done.
Qed.

(** ** Further properties of swap *)

(** X8: [a.swap(b)] and [b.swap(a)] do the same: the two mixed branches
    of [swap] mirror each other, so either call leaves each of the two
    objects with the same fields, inactive storage included. *)
Theorem swap_symmetric this x :
  swap x this = ((swap this x).2, (swap this x).1).
Proof.
  rewrite !swap_eq.
  destruct (m_is_small this), (m_is_small x); reflexivity.
Qed.

(** X9: swapping twice gives every caller back what they had: after two
    [swap]s of two well-formed containers each has its original size, mode
    and elements. *)
Theorem swap_twice_restores this x :
  wf this → wf x →
  let once := swap this x in
  let twice := swap once.1 once.2 in
  observable twice.1 = observable this ∧ observable twice.2 = observable x.
Proof.
  intros H1 H2. simpl.
  destruct (wf_swap this x H1 H2) as [H1' H2'].
  destruct (swap_observable this x H1 H2) as [E1 E2].
  destruct (swap_observable _ _ H1' H2') as [E1' E2'].
  split; congruence.
Qed.

(** ** Properties of empty, front and back *)

(** X10: on a well-formed container that is not empty, [front()] is
    element 0 and [back()] is element [size()-1], in either mode: the
    first and the last of the elements that iteration yields. *)
Theorem front_back_are_first_and_last c :
  wf c → 0 < size c →
  front c = index c 0 ∧ back c = index c (size c - 1) ∧
  front c = head (contents c) ∧ back c = last (contents c) ∧
  is_Some (front c) ∧ is_Some (back c).
Proof.
  unfold size. intros Hwf Hpos.
  pose proof (length_active c Hwf) as Hlen.
  pose proof (length_contents c Hwf) as Hlc.
  destruct Hwf as (Ha & Hm & Hv).
  assert (front c = index c 0) as Hf.
  { unfold front, index. destruct (m_is_small c); apply head_lookup. }
  assert (back c = index c (m_size c - 1)) as Hb.
  { unfold back, index. destruct (m_is_small c) eqn:E.
    - destruct (m_size c) as [|k]; [lia|]. f_equal. lia.
    - rewrite last_lookup, (Hv eq_refl). f_equal. lia. }
  rewrite Hf, Hb. repeat split.
  - rewrite head_lookup. symmetry. apply lookup_contents. lia.
  - rewrite last_lookup, Hlc.
    replace (pred (m_size c)) with (m_size c - 1) by lia.
    symmetry. apply lookup_contents. lia.
  - rewrite index_active. apply lookup_lt_is_Some_2. lia.
  - rewrite index_active. apply lookup_lt_is_Some_2. lia.
Qed.

(** X11: [begin() == end()] exactly when [empty()]: the two iterators
    compare equal if the size is 0 and unequal otherwise, in either
    mode. *)
Theorem begin_is_end_iff_empty c :
  operator_eq (begin c) (end_ c) = empty c ∧
  operator_ne (begin c) (end_ c) = negb (empty c).
Proof.
  assert (operator_eq (begin c) (end_ c) = empty c) as H.
  { rewrite begin_eq, end_eq. unfold operator_eq, empty. simpl.
    destruct (m_size c) as [|k]; simpl.
    - by apply bool_decide_eq_true.
    - apply bool_decide_eq_false. intros [=]. }
  split; [done|]. unfold operator_ne. unfold operator_eq in H. by rewrite H.
Qed.

(** ** Properties of iterators over a container *)

(** X12: [end() - begin()] is [size()], in either mode. *)
Theorem end_minus_begin_is_size c :
  operator_diff (end_ c) (begin c) = Some (Z.of_nat (size c)).
Proof.
  rewrite begin_eq, end_eq. unfold operator_diff, size. simpl.
  rewrite decide_True by done. f_equal. lia.
Qed.

(** X13: random access agrees with indexing: [*(begin() + i)] is
    [operator[](i)] for every [i], in either mode. *)
Theorem begin_plus_reads_index c i :
  operator_deref c (operator_plus (begin c) (Z.of_nat i)) = index c i.
Proof.
  rewrite begin_eq. unfold operator_deref, operator_plus, ptr_add.
  unfold m_ptr, buf, off.
  replace (Z.of_nat 0 + Z.of_nat i)%Z with (Z.of_nat i) by lia.
  rewrite load_active. symmetry. apply index_active.
Qed.

(** X14: what the value of an increment expression reads.  With an
    iterator at slot [i], [*it++] reads element [i+1], not element [i],
    and [*++it] reads element [i], not element [i+1]; both leave the
    iterator at slot [i+1]. *)
Theorem deref_of_increment c i :
  let it := operator_plus (begin c) (Z.of_nat i) in
  operator_deref c (returned (operator_post_incr it)) = index c (S i) ∧
  operator_deref c (returned (operator_pre_incr it)) = index c i ∧
  operator_deref c (left_at (operator_post_incr it)) = index c (S i) ∧
  operator_deref c (left_at (operator_pre_incr it)) = index c (S i).
Proof.
  cbv zeta. rewrite begin_eq.
  unfold operator_deref, operator_plus, operator_post_incr,
    operator_pre_incr, returned, left_at, ptr_add.
  unfold fst, snd, m_ptr, buf, off.
  replace (Z.of_nat 0 + Z.of_nat i + 1)%Z with (Z.of_nat (S i)) by lia.
  replace (Z.of_nat 0 + Z.of_nat i)%Z with (Z.of_nat i) by lia.
  rewrite !load_active, !index_active. done.
Qed.

(** X15: an assignment through [operator[](n)] is read back by
    [operator[](n)], leaves every other element as it was, and changes
    neither the size nor the mode. *)
Theorem store_then_index n x c c' :
  store n x c = Some c' →
  index c' n = Some x ∧
  (∀ j, j ≠ n → index c' j = index c j) ∧
  size c' = size c ∧ m_is_small c' = m_is_small c.
Proof.
  unfold store, index, size. destruct c as [v a s k]. simpl.
  destruct s; case_decide; intros [= <-]; simpl; repeat split.
  - by apply list_lookup_insert_eq.
  - intros j Hj. by apply list_lookup_insert_ne.
  - by apply list_lookup_insert_eq.
  - intros j Hj. by apply list_lookup_insert_ne.
Qed.

End Container.

(** C9: the postfix operators [it++] and [it--] first move the address
    (one slot forward, respectively back) and then return the iterator at
    its new position: what they return is the iterator as they leave it,
    and it differs from the iterator as it was. *)
Theorem postfix_returns_new_position it :
  (m_ptr (left_at (operator_post_incr it)) = ptr_add (m_ptr it) 1 ∧
   returned (operator_post_incr it) = left_at (operator_post_incr it) ∧
   returned (operator_post_incr it) ≠ it) ∧
  (m_ptr (left_at (operator_post_decr it)) = ptr_add (m_ptr it) (-1) ∧
   returned (operator_post_decr it) = left_at (operator_post_decr it) ∧
   returned (operator_post_decr it) ≠ it).
Proof.
  destruct it as [[b o]]. unfold operator_post_incr, operator_post_decr,
    returned, left_at, ptr_add. simpl.
  repeat split; intros [=]; lia.
Qed.

(** C10: the prefix operators [++it] and [--it] move the address (one slot
    forward, respectively back) but return a copy of the iterator at its
    old position.  The two forms have exchanged their conventional roles:
    the prefix operators behave as conventional postfix ones, the postfix
    operators as conventional prefix ones. *)
Theorem prefix_returns_old_position it :
  (m_ptr (left_at (operator_pre_incr it)) = ptr_add (m_ptr it) 1 ∧
   returned (operator_pre_incr it) = it ∧
   returned (operator_pre_incr it) ≠ left_at (operator_pre_incr it)) ∧
  (m_ptr (left_at (operator_pre_decr it)) = ptr_add (m_ptr it) (-1) ∧
   returned (operator_pre_decr it) = it ∧
   returned (operator_pre_decr it) ≠ left_at (operator_pre_decr it)) ∧
  (operator_pre_incr it = conventional_postfix 1 it ∧
   operator_pre_decr it = conventional_postfix (-1) it ∧
   operator_post_incr it = conventional_prefix 1 it ∧
   operator_post_decr it = conventional_prefix (-1) it).
Proof.
  destruct it as [[b o]]. unfold operator_pre_incr, operator_pre_decr,
    returned, left_at, ptr_add. simpl.
  repeat split; intros [=]; lia.
Qed.

(** ** Iterator arithmetic *)

(** X16: the moves of an iterator undo each other: a decrement after an
    increment (prefix or postfix, in either order), [- n] after [+ n], and
    [-= n] after [+= n] bring the iterator back to where it was. *)
Theorem iterator_moves_undo it n :
  left_at (operator_pre_decr (left_at (operator_pre_incr it))) = it ∧
  left_at (operator_post_decr (left_at (operator_post_incr it))) = it ∧
  left_at (operator_pre_incr (left_at (operator_pre_decr it))) = it ∧
  left_at (operator_post_incr (left_at (operator_post_decr it))) = it ∧
  operator_minus (operator_plus it n) n = it ∧
  operator_plus (operator_minus it n) n = it ∧
  left_at (operator_minus_assign (left_at (operator_plus_assign it n)) n) = it.
Proof.
  destruct it as [[b o]].
  unfold operator_pre_decr, operator_pre_incr, operator_post_decr,
    operator_post_incr, operator_minus, operator_plus,
    operator_minus_assign, operator_plus_assign, left_at, ptr_add. simpl.
  repeat split; do 2 f_equal; lia.
Qed.

(** X17: increments add up.  [k] increments, prefix or postfix, leave the
    iterator where [+ k] puts it, at distance [k] from where it was;
    [+= n] leaves and returns what [+ n] returns; and [(it + n) - it] is
    [n]. *)
Theorem increments_add_up it k n :
  Nat.iter k (λ i, left_at (operator_pre_incr i)) it
    = operator_plus it (Z.of_nat k) ∧
  Nat.iter k (λ i, left_at (operator_post_incr i)) it
    = operator_plus it (Z.of_nat k) ∧
  operator_diff (operator_plus it (Z.of_nat k)) it = Some (Z.of_nat k) ∧
  operator_plus_assign it n = (operator_plus it n, operator_plus it n) ∧
  operator_diff (operator_plus it n) it = Some n ∧
  operator_diff it (operator_minus it n) = Some n.
Proof.
  assert (∀ m, operator_diff (operator_plus it m) it = Some m) as Hdiff.
  { intros m. unfold operator_diff, operator_plus, ptr_add. simpl.
    rewrite decide_True by done. f_equal. lia. }
  assert (∀ step, (∀ i, left_at (step i) = Iter (ptr_add (m_ptr i) 1)) →
            Nat.iter k (λ i, left_at (step i)) it
            = operator_plus it (Z.of_nat k)) as Hiter.
  { intros step Hstep. induction k as [|k IH].
    - destruct it as [[b o]]. unfold operator_plus, ptr_add. simpl.
      do 2 f_equal. lia.
    - simpl. rewrite IH, Hstep. unfold operator_plus, ptr_add. simpl.
      do 2 f_equal. lia. }
  repeat split.
  - apply Hiter. by intros [p].
  - apply Hiter. by intros [p].
  - apply Hdiff.
  - apply Hdiff.
  - unfold operator_diff, operator_minus, ptr_add. simpl.
    rewrite decide_True by done. f_equal. lia.
Qed.

(** ** The growth-then-shrink round trip, [small_size = 4] *)

Section RoundTrip.

Variable T : Type.
Variables dflt a b c : T.
Variables j0 j1 j2 j3 : T.
Variables x0 x1 x2 x3 x4 x5 : T.
Variable growth : nat → nat → nat.

Local Abbreviation resize := (resize dflt 4 growth).

(** C1: with [small_size = 4], from a fresh container: [resize(3)], the
    elements 0..2 set to [a], [b], [c], then [resize(6)], which crosses to
    Large and copies the old size (3) elements, then [resize(2)], which
    crosses back to Small and copies the new size (2) elements.  Then
    element 0 is [a], element 1 is [b], the size is 2, the mode Small.

    The copy counts show in the storages.  Going to Large, the vector
    gets [a], [b], [c] and three defaults: three slots of the array, not
    its fourth.  Going to Small, the array gets the first two elements of
    the vector and keeps its other two slots: with the six elements
    overwritten in Large mode by [x0] .. [x5], the array is left with
    [x0], [x1], and the [c] and [j3] it held before. *)
Theorem growth_then_shrink_round_trip :
  let c0 := new_container [j0; j1; j2; j3] in
  let c1 := resize 3 c0 in
  ∃ c2, (s1 ← store 0 a c1; s2 ← store 1 b s1; store 2 c s2) = Some c2 ∧
    let c3 := resize 6 c2 in
    let c4 := resize 2 c3 in
    (migrated_v 4 6 c2 = [a; b; c] ∧
     m_is_small c3 = false ∧ size c3 = 6 ∧
     elems (m_v c3) = [a; b; c; dflt; dflt; dflt]) ∧
    (migrated_a 4 2 c3 = copy_into [a; b] (m_a c3) ∧
     m_a c4 = [a; b; c; j3]) ∧
    (index c4 0 = Some a ∧ index c4 1 = Some b ∧
     size c4 = 2 ∧ m_is_small c4 = true) ∧
    ∃ c3', (s0 ← store 0 x0 c3; s1 ← store 1 x1 s0; s2 ← store 2 x2 s1;
            s3 ← store 3 x3 s2; s4 ← store 4 x4 s3; store 5 x5 s4)
           = Some c3' ∧
      let c4' := resize 2 c3' in
      m_a c4' = [x0; x1; c; j3] ∧
      index c4' 0 = Some x0 ∧ index c4' 1 = Some x1 ∧
      size c4' = 2 ∧ m_is_small c4' = true.
Proof.
  cbv zeta.
  exists (Container vec_empty [a; b; c; j3] true 3).
  split; [reflexivity|].
  set (c2 := Container vec_empty [a; b; c; j3] true 3).
  assert (∃ cap, resize 6 c2
                 = Container (LargeVec [a; b; c; dflt; dflt; dflt] cap)
                             [a; b; c; j3] false 6) as [cap E3].
  { exists (capacity (m_v (resize 6 c2))).
    rewrite (container_eta (resize 6 c2)) at 1.
    by rewrite elems_resize, m_a_resize, m_is_small_resize, m_size_resize. }
  rewrite E3.
  assert (∀ l, let c3 := Container (LargeVec l cap) [a; b; c; j3] false 6 in
            m_a (resize 2 c3) = copy_into (take 2 l) [a; b; c; j3] ∧
            m_is_small (resize 2 c3) = true ∧ m_size (resize 2 c3) = 2) as H2.
  { intros l. cbv zeta.
    by rewrite m_a_resize, m_is_small_resize, m_size_resize. }
  split; [repeat split; reflexivity|].
  split; [split; [reflexivity|apply H2]|].
  split.
  - unfold index, size.
    destruct (H2 [a; b; c; dflt; dflt; dflt]) as (-> & -> & ->).
    repeat split.
  - exists (Container (LargeVec [x0; x1; x2; x3; x4; x5] cap)
                      [a; b; c; j3] false 6).
    split; [reflexivity|]. cbv zeta. unfold index, size.
    destruct (H2 [x0; x1; x2; x3; x4; x5]) as (-> & -> & ->).
    repeat split.
Qed.

End RoundTrip.

(** ** The claims at concrete containers *)

Ltac solve_wf := unfold wf; simpl; repeat split; intros; (lia || done).

(** A counterexample to C2 as stated: the container [after_large_episode]
    is reached by public operations, is Small with size 0, and after
    [resize(6)] its slot 0 holds the 7 of the earlier Large episode, not
    the default 0. *)
Lemma resize_to_large_keeps_stale_slot :
  (c ← store 0 7 (resize 0 4 doubling 6 fresh4);
   Some (resize 0 4 doubling 0 c)) = Some after_large_episode ∧
  wf 4 after_large_episode ∧
  m_is_small after_large_episode = true ∧ size after_large_episode = 0 ∧
  4 < 6 ∧
  index (resize 0 4 doubling 6 after_large_episode) 0 = Some 7 ∧
  ¬ (∀ i, size after_large_episode ≤ i → i < 6 →
          index (resize 0 4 doubling 6 after_large_episode) i = Some 0).
Proof.
  split; [reflexivity|]. split; [solve_wf|].
  repeat (split; [reflexivity || lia|]).
  intros H. specialize (H 0 (Nat.le_refl 0)). discriminate H. lia.
Qed.

(** A counterexample to C3 as stated: on a fresh container, with a heap
    that grants nothing, [resize(6)] fails in its allocation and leaves the
    container with size 6 and mode Large, not with size 0 and mode Small
    as before the call. *)
Lemma resize_bad_alloc_changes_state :
  resize_stmt 0 4 doubling no_memory 6 fresh4 = Thrown half_resized ∧
  size half_resized = 6 ∧ size fresh4 = 0 ∧
  m_is_small half_resized = false ∧ m_is_small fresh4 = true ∧
  observable half_resized ≠ observable fresh4.
Proof. repeat split; try reflexivity. discriminate. Qed.

(** C2, amended, at a Small container of size 2 resized to 6: slots 2 to
    5 hold the default. *)
Lemma resize_to_large_defaults_witness :
  wf 4 small_pq ∧ m_is_small small_pq = true ∧ 4 < 6 ∧
  (∀ i, 2 ≤ i → i < 6 → index (resize 0 4 doubling 6 small_pq) i = Some 0).
Proof.
  assert (wf 4 small_pq) as Hwf by solve_wf.
  assert (4 < 6) as Hlt by lia.
  repeat (split; [done|]).
  exact (proj1 (proj2 (proj2
    (resize_to_large_defaults 0 4 doubling 6 small_pq Hwf eq_refl Hlt)))).
Defined.

(** C3, amended, at the failed [resize(6)] of a fresh container: the
    failure is in the final [m_v.resize]. *)
Lemma resize_bad_alloc_witness :
  resize_stmt 0 4 doubling no_memory 6 fresh4 = Thrown half_resized ∧
  ((observable half_resized = observable fresh4 ∧
    m_size fresh4 ≠ 0 ∧ m_is_small fresh4 = true ∧ 4 < 6 ∧
    vec_assign doubling no_memory (take (m_size fresh4) (m_a fresh4))
      (m_v fresh4) = None)
   ∨
   (m_size half_resized = 6 ∧ m_is_small half_resized = false ∧ 4 < 6 ∧
    m_a half_resized = m_a fresh4 ∧
    elems (m_v half_resized) = migrated_v 4 6 fresh4 ∧
    capacity (m_v half_resized) < 6 ∧
    vec_resize 0 doubling no_memory 6 (m_v half_resized) = None)).
Proof.
  split; [reflexivity|].
  apply (resize_bad_alloc 0 4 doubling no_memory 6 fresh4 half_resized).
  reflexivity.
Defined.

(** C4 at a Small container of size 2 and a Large one of size 10. *)
Lemma swap_exchanges_state_witness :
  wf 4 small_pq ∧ wf 4 large_v ∧
  observable (swap small_pq large_v).1
    = (10, false, [10; 11; 12; 13; 14; 15; 16; 17; 18; 19]) ∧
  observable (swap small_pq large_v).2 = (2, true, [1; 2]).
Proof.
  assert (wf 4 small_pq) as H1 by solve_wf.
  assert (wf 4 large_v) as H2 by solve_wf.
  split; [done|]. split; [done|].
  exact (proj2 (proj2 (swap_exchanges_state 4 small_pq large_v H1 H2))).
Defined.

(** C5, its part on [swap], at the same two containers. *)
Lemma mode_invariant_witness :
  mode_inv 4 small_pq ∧ mode_inv 4 large_v ∧
  mode_inv 4 (swap small_pq large_v).1 ∧ mode_inv 4 (swap small_pq large_v).2.
Proof.
  assert (mode_inv 4 small_pq) as H1
    by (unfold mode_inv; simpl; split; intros; (lia || done)).
  assert (mode_inv 4 large_v) as H2
    by (unfold mode_inv; simpl; split; intros; (lia || done)).
  split; [done|]. split; [done|].
  apply (proj1 (proj2 (proj2 (mode_invariant 0 4 doubling)))); done.
Defined.

(** C7 at a Large container of size 10, stepping with [++it]. *)
Lemma iteration_agrees_with_indexing_witness :
  wf 4 large_v ∧ size large_v ≤ 10 ∧
  ∃ l, traverse operator_pre_incr 10 large_v (begin large_v) (end_ large_v)
       = Some l ∧
       length l = size large_v ∧
       ∀ i, i < size large_v → l !! i = index large_v i.
Proof.
  assert (wf 4 large_v) as H1 by solve_wf.
  assert (size large_v ≤ 10) as H2 by (simpl; lia).
  split; [done|]. split; [done|].
  apply (iteration_agrees_with_indexing 4 large_v operator_pre_incr 10 H1 H2).
  left. reflexivity.
Defined.

(** ** The further properties at concrete containers *)

(** X1 at a Large container of size 10 resized to 3. *)
Lemma resize_preserves_prefix_witness :
  wf 4 large_v ∧ 1 < size large_v ∧ 1 < 3 ∧
  index (resize 0 4 doubling 3 large_v) 1 = index large_v 1.
Proof.
  assert (wf 4 large_v) as Hwf by solve_wf.
  assert (1 < size large_v) as Hi by (simpl; lia).
  assert (1 < 3) as Hn by lia.
  split; [done|]. split; [done|]. split; [done|].
  exact (resize_preserves_prefix 0 4 doubling 3 large_v 1 Hwf Hi Hn).
Defined.

(** X2 at a fresh container: after a [resize(6)] that returns, and after
    one that throws. *)
Lemma index_in_bounds_until_a_throw_witness :
  reached_returning 0 4 doubling (resize 0 4 doubling 6 fresh4) ∧
  5 < size (resize 0 4 doubling 6 fresh4) ∧
  is_Some (index (resize 0 4 doubling 6 fresh4) 5) ∧
  reached_returning 0 4 doubling fresh4 ∧
  resize_stmt 0 4 doubling no_memory 6 fresh4 = Thrown half_resized ∧
  (observable half_resized = observable fresh4 ∨
   (size half_resized = 6 ∧ 0 < 6 ∧ index half_resized (6 - 1) = None)).
Proof.
  assert (reached_returning 0 4 doubling fresh4) as Hf
    by (apply rr_new; reflexivity).
  assert (reached_returning 0 4 doubling (resize 0 4 doubling 6 fresh4)) as Hr
    by (apply (rr_resize 0 4 doubling unlimited 6 fresh4 _ Hf); reflexivity).
  assert (5 < size (resize 0 4 doubling 6 fresh4)) as Hi by (simpl; lia).
  assert (resize_stmt 0 4 doubling no_memory 6 fresh4 = Thrown half_resized)
    as Ht by reflexivity.
  split; [done|]. split; [done|].
  split; [exact (proj1 (proj1 (index_in_bounds_until_a_throw 0 4 doubling)
                          _ 5 Hr Hi))|].
  split; [done|]. split; [done|].
  exact (proj2 (index_in_bounds_until_a_throw 0 4 doubling)
           no_memory 6 fresh4 half_resized Hf Ht).
Defined.

(** X3 at a Large container resized to 2 with a heap that grants
    nothing. *)
Lemma resize_small_no_heap_witness :
  2 ≤ 4 ∧
  resize_stmt 0 4 doubling no_memory 2 large_v
    = Returned (resize 0 4 doubling 2 large_v) ∧
  m_v (resize 0 4 doubling 2 large_v) = m_v large_v.
Proof.
  assert (2 ≤ 4) as Hn by lia.
  split; [done|].
  exact (resize_small_no_heap 0 4 doubling no_memory 2 large_v Hn).
Defined.

(** X4 at the container left by a Large episode of size 6, resized to 6
    again with a heap that grants nothing. *)
Lemma resize_reuses_capacity_witness :
  wf 4 after_large_episode ∧ 6 ≤ capacity (m_v after_large_episode) ∧
  resize_stmt 0 4 doubling no_memory 6 after_large_episode
    = Returned (resize 0 4 doubling 6 after_large_episode) ∧
  capacity (m_v (resize 0 4 doubling 6 after_large_episode))
    = capacity (m_v after_large_episode).
Proof.
  assert (wf 4 after_large_episode) as Hwf by solve_wf.
  assert (6 ≤ capacity (m_v after_large_episode)) as Hc by (simpl; lia).
  split; [done|]. split; [done|].
  exact (resize_reuses_capacity 0 4 doubling no_memory 6 _ Hwf Hc).
Defined.

(** X5 at a Small container of size 2, resized to 1 and then to 3. *)
Lemma resize_within_small_keeps_slots_witness :
  m_is_small small_pq = true ∧ 1 ≤ 4 ∧ 3 ≤ 4 ∧
  index (resize 0 4 doubling 3 (resize 0 4 doubling 1 small_pq)) 1
    = index small_pq 1.
Proof.
  assert (1 ≤ 4) as H1 by lia.
  assert (3 ≤ 4) as H3 by lia.
  split; [done|]. split; [done|]. split; [done|].
  exact (resize_within_small_keeps_slots 0 4 doubling 1 3 small_pq 1
           eq_refl H1 H3).
Defined.

(** X6 at a Large container of size 10 resized to 12. *)
Lemma resize_large_growth_defaults_witness :
  wf 4 large_v ∧ m_is_small large_v = false ∧
  size large_v ≤ 11 ∧ 11 < 12 ∧
  index (resize 0 4 doubling 12 large_v) 11 = Some 0.
Proof.
  assert (wf 4 large_v) as Hwf by solve_wf.
  assert (size large_v ≤ 11) as Hi by (simpl; lia).
  assert (11 < 12) as Hn by lia.
  split; [done|]. split; [done|]. split; [done|]. split; [done|].
  exact (resize_large_growth_defaults 0 4 doubling 12 large_v 11
           Hwf eq_refl Hi Hn).
Defined.

(** X7 at a Large container of size 10 resized to 3 and swapped with a
    Small one, and at the container left by a failed [resize(6)], resized
    to 2. *)
Lemma ranges_stay_in_storage_witness :
  wf 4 large_v ∧ wf 4 small_pq ∧
  resize_checked 0 4 doubling no_memory 3 large_v
    = Some (resize_stmt 0 4 doubling no_memory 3 large_v) ∧
  swap_checked (large_v, small_pq) = Some (swap_stmt (large_v, small_pq)) ∧
  m_size half_resized ≠ 0 ∧ m_is_small half_resized = false ∧ 2 ≤ 4 ∧
  length (elems (m_v half_resized)) < 2 ∧
  resize_checked 0 4 doubling no_memory 2 half_resized = None.
Proof.
  assert (wf 4 large_v) as H1 by solve_wf.
  assert (wf 4 small_pq) as H2 by solve_wf.
  assert (m_size half_resized ≠ 0) as H3 by (simpl; lia).
  assert (2 ≤ 4) as H4 by lia.
  assert (length (elems (m_v half_resized)) < 2) as H5 by (simpl; lia).
  split; [done|]. split; [done|].
  split; [exact (proj1 (ranges_stay_in_storage 0 4 doubling)
                   no_memory 3 large_v H1)|].
  split; [exact (proj1 (proj2 (ranges_stay_in_storage 0 4 doubling))
                   large_v small_pq H1 H2)|].
  split; [done|]. split; [done|]. split; [done|]. split; [done|].
  exact (proj2 (proj2 (ranges_stay_in_storage 0 4 doubling))
           no_memory 2 half_resized H3 eq_refl H4 H5).
Defined.

(** X9 at a Small container of size 2 and a Large one of size 10. *)
Lemma swap_twice_restores_witness :
  wf 4 small_pq ∧ wf 4 large_v ∧
  observable (swap (swap small_pq large_v).1 (swap small_pq large_v).2).1
    = observable small_pq ∧
  observable (swap (swap small_pq large_v).1 (swap small_pq large_v).2).2
    = observable large_v.
Proof.
  assert (wf 4 small_pq) as H1 by solve_wf.
  assert (wf 4 large_v) as H2 by solve_wf.
  split; [done|]. split; [done|].
  exact (swap_twice_restores 4 small_pq large_v H1 H2).
Defined.

(** X10 at a Large container of size 10. *)
Lemma front_back_are_first_and_last_witness :
  wf 4 large_v ∧ 0 < size large_v ∧
  front large_v = Some 10 ∧ back large_v = Some 19.
Proof.
  assert (wf 4 large_v) as Hwf by solve_wf.
  assert (0 < size large_v) as Hpos by (simpl; lia).
  split; [done|]. split; [done|].
  pose proof (front_back_are_first_and_last 4 large_v Hwf Hpos)
    as (Hf & Hb & _).
  split; [exact Hf|exact Hb].
Defined.

(** X15 at a Small container of size 2: element 1 set to 9. *)
Lemma store_then_index_witness :
  store 1 9 small_pq = Some (Container vec_empty [1; 9; 0; 0] true 2) ∧
  index (Container vec_empty [1; 9; 0; 0] true 2) 1 = Some 9 ∧
  (∀ j, j ≠ 1 →
     index (Container vec_empty [1; 9; 0; 0] true 2) j = index small_pq j) ∧
  size (Container vec_empty [1; 9; 0; 0] true 2) = size small_pq ∧
  m_is_small (Container vec_empty [1; 9; 0; 0] true 2) = m_is_small small_pq.
Proof.
  split; [reflexivity|].
  exact (store_then_index 1 9 small_pq _ eq_refl).
Defined.
